(** * IntentAI, learning/c-examples: the file reader and the file writer

    A shallow embedding of [06-file-read.c] and [07-file-write.c].  Both
    programs are a single [main] that talks to the C standard I/O library,
    so the embedding has two layers:

    - [Stdio]: the part of <stdio.h> the programs call ([fopen], [fgets],
      [fprintf], [fclose], [printf]) as operations of a state-and-failure
      monad over a [world] (files, open streams, standard output);
    - [FileRead] and [FileWrite]: the two [main] functions, statement by
      statement.

    Characters are [ascii], C strings and file contents are [list ascii],
    the file system and the stream table are [gmap]s.  Text streams are
    taken as on POSIX, the bytes of the file as they are.  The only failure
    of the library that is modelled is the one the programs test for, a
    refused [fopen]; what the C standard leaves undefined is the outcome
    [Undefined].  A file that [fopen] creates gets the permissions the
    umask leaves.  Each name of the working directory stands for a file of
    its own: hard and symbolic links are outside the model. *)

From stdpp Require Import gmap strings list fin_maps.
From Stdlib Require Import ZArith Ascii.

Local Open Scope Z_scope.
Local Open Scope list_scope.

(** ** Characters and C strings *)

Abbreviation char := ascii.

Definition NUL : char := "000"%char.
Definition LF : char := "010"%char.

(** A string literal of the source, as the characters it denotes (the
    terminator is not part of the list). *)
Definition lit (s : string) : list char := String.list_ascii_of_string s.

(** What a [%s] conversion (or any consumer of a [char *]) sees in an array:
    the characters before the first terminator.  [None] when the array holds
    no terminator: the consumer would run past its end. *)
Fixpoint c_str (mem : list char) : option (list char) :=
  match mem with
  | [] => None
  | c :: mem' =>
      if Ascii.eqb c NUL then Some []
      else match c_str mem' with
           | Some s => Some (c :: s)
           | None => None
           end
  end.

(** The characters one [fgets] call consumes: at most [k] of them, stopping
    after the first newline, which is kept. *)
Fixpoint take_line (k : nat) (l : list char) : list char :=
  match k, l with
  | S k', c :: l' => if Ascii.eqb c LF then [c] else c :: take_line k' l'
  | _, _ => []
  end.

(** ** The standard I/O library *)

Module Stdio.

(** The two [fopen] modes the programs use: ["r"] and ["w"]. *)
Inductive fmode := ModeR | ModeW.

Definition handle := nat.

(** A file of the working directory: its bytes, and whether this process
    may open it for reading, for writing. *)
Record inode := Inode { data : list char; r_ok : bool; w_ok : bool }.

(** An open [FILE]: the file it is attached to, its mode, the read
    position, and the output still held in the stream's buffer. *)
Record stream := Stream {
  s_path : string; s_mode : fmode; s_pos : nat; s_pending : list char }.

(** One entry per library call, in program order. *)
Inductive event :=
| EOpen (path : string) (m : fmode) (res : option handle)
| EGets (h : handle) (n : nat) (stored : bool) (after : list char)
| EFprintf (h : handle) (s : list char)
| EClose (h : handle)
| EPrintf (s : list char).

Record world := World {
  new_perm : bool * bool;      (* may a newly created file be read, be
                                  written?  mode 0666 minus the umask *)
  files : gmap string inode;   (* the working directory *)
  dir_w : bool;                (* may new entries be created in it? *)
  streams : gmap handle stream;  (* the open FILE objects *)
  out : list char;             (* everything written to stdout *)
  log : list event }.

(** A computation either yields a value and a new world, or its behaviour
    is undefined (the C standard puts no requirement on it). *)
Inductive result (A : Type) :=
| Ok (a : A) (w : world)
| Undefined.
Arguments Ok {A} a w.
Arguments Undefined {A}.

Definition M (A : Type) : Type := world → result A.

Definition ret {A} (a : A) : M A := fun w => Ok a w.

Definition bind {A B} (m : M A) (k : A → M B) : M B :=
  fun w => match m w with
           | Ok a w' => k a w'
           | Undefined => Undefined
           end.

Definition undefined {A} : M A := fun _ => Undefined.

(** stdpp's monad notations: [x ← m; k] and [m;; k]. *)
#[global] Instance M_ret : MRet M := @ret.
#[global] Instance M_bind : MBind M := fun A B k m => bind m k.

Definition set_files (f : gmap string inode) (w : world) : world :=
  World (new_perm w) f (dir_w w) (streams w) (out w) (log w).
Definition set_streams (s : gmap handle stream) (w : world) : world :=
  World (new_perm w) (files w) (dir_w w) s (out w) (log w).
Definition set_out (o : list char) (w : world) : world :=
  World (new_perm w) (files w) (dir_w w) (streams w) o (log w).
Definition record (e : event) (w : world) : world :=
  World (new_perm w) (files w) (dir_w w) (streams w) (out w) (log w ++ [e]).

(** A new [FILE] object for [path]; its handle differs from every open
    one. *)
Definition attach (path : string) (m : fmode) (w : world) : handle * world :=
  let h := fresh (dom (streams w)) in
  (h, set_streams (<[h := Stream path m 0 []]> (streams w)) w).

(** Whether an open can succeed.  ["r"]: the file is there and may be read.
    ["w"]: the file is there and may be written, or it is missing and may
    be created. *)
Definition may_open (w : world) (path : string) (m : fmode) : bool :=
  match m, files w !! path with
  | ModeR, Some f => r_ok f
  | ModeR, None => false
  | ModeW, Some f => w_ok f
  | ModeW, None => dir_w w
  end.

(** What opening with ["w"] does to the file: an existing file is cut to
    length zero and keeps its permissions, a missing one is created empty
    with the permissions the umask leaves. *)
Definition truncate (path : string) (w : world) : world :=
  let f' := match files w !! path with
            | Some f => Inode [] (r_ok f) (w_ok f)
            | None => Inode [] (fst (new_perm w)) (snd (new_perm w))
            end in
  set_files (<[path := f']> (files w)) w.

(** [fopen(path, mode)].  A failed open changes nothing and yields [NULL]
    ([None]). *)
Definition fopen (path : string) (m : fmode) : M (option handle) :=
  fun w =>
    if may_open w path m
    then
      let w0 := match m with ModeR => w | ModeW => truncate path w end in
      let '(h, w1) := attach path m w0 in
      Ok (Some h) (record (EOpen path m (Some h)) w1)
    else Ok None (record (EOpen path m None) w).

(** The bytes of the file a stream is attached to. *)
Definition contents (w : world) (path : string) : list char :=
  match files w !! path with
  | Some f => data f
  | None => []
  end.

(** [fgets(buf, n, h)], given the current contents [buf] of the destination
    array: yields whether the call returned [buf] (rather than [NULL]) and
    the contents of the array afterwards.  At most [n - 1] characters are
    read, a terminator is stored after them; at end of file with nothing
    read the array is left as it was.  Storing beyond the end of the array
    is undefined, as is a handle that is not open. *)
Definition fgets (buf : list char) (n : nat) (h : handle) : M (bool * list char) :=
  fun w =>
    match streams w !! h with
    | None => Undefined
    | Some s =>
        let rest := drop (s_pos s) (contents w (s_path s)) in
        match s_mode s, n, rest with
        | ModeW, _, _ | _, O, _ | _, _, [] =>
            Ok (false, buf) (record (EGets h n false buf) w)
        | ModeR, S k, _ :: _ =>
            let got := take_line k rest in
            let stored := got ++ [NUL] in
            if (length stored <=? length buf)%nat
            then
              let buf' := stored ++ drop (length stored) buf in
              let s' := Stream (s_path s) (s_mode s) (s_pos s + length got) (s_pending s) in
              Ok (true, buf')
                 (record (EGets h n true buf')
                    (set_streams (<[h := s']> (streams w)) w))
            else Undefined
        end
    end.

(** [fprintf(h, s)] with a format [s] that has no conversions: the
    characters go to the stream's buffer. *)
Definition fprintf (h : handle) (s : list char) : M unit :=
  fun w =>
    match streams w !! h with
    | None => Undefined
    | Some st =>
        match s_mode st with
        | ModeR => Ok () (record (EFprintf h s) w)
        | ModeW =>
            let st' := Stream (s_path st) (s_mode st) (s_pos st) (s_pending st ++ s) in
            Ok () (record (EFprintf h s) (set_streams (<[h := st']> (streams w)) w))
        end
    end.

(** [fclose(h)]: buffered output is written to the file, the [FILE] object
    is gone.  Closing a handle that is not open is undefined. *)
Definition fclose (h : handle) : M unit :=
  fun w =>
    match streams w !! h with
    | None => Undefined
    | Some st =>
        let fs' :=
          match s_mode st, files w !! s_path st with
          | ModeW, Some f =>
              <[s_path st := Inode (data f ++ s_pending st) (r_ok f) (w_ok f)]> (files w)
          | _, _ => files w
          end in
        Ok () (record (EClose h)
                 (set_streams (delete h (streams w)) (set_files fs' w)))
    end.

(** [printf(s)] with a format [s] that has no conversions. *)
Definition printf (s : list char) : M unit :=
  fun w => Ok () (record (EPrintf s) (set_out (out w ++ s) w)).

(** [printf("<pre>%s<post>", arg)]: the argument array is read up to its
    terminator; an array without one is read past its end, which is
    undefined. *)
Definition printf_s (pre : list char) (arg : list char) (post : list char) : M unit :=
  match c_str arg with
  | Some s => printf (pre ++ s ++ post)
  | None => undefined
  end.

End Stdio.

Import Stdio.

(** ** 06-file-read.c *)

Module FileRead.

(** [char buffer[100];] has no initialiser: the array starts with whatever
    bytes the stack holds there, [stack 0 .. stack 99].  A [char] has no
    trap representation, so these are 100 unspecified but ordinary bytes;
    they are a parameter of the run, the program has no say in them. *)
Definition declare_buffer (stack : nat → char) : list char :=
  map stack (seq 0 100).

Definition main (stack : nat → char) : M Z :=
  file ← fopen "test.txt" ModeR;
  match file with
  | None =>
      printf (lit "Could not open file" ++ [LF]);;
      mret 1
  | Some file =>
      let buffer := declare_buffer stack in
      '(_, buffer) ← fgets buffer 100 file;
      printf_s (lit "Read: ") buffer [LF];;
      fclose file;;
      mret 0
  end.

End FileRead.

(** ** 07-file-write.c *)

Module FileWrite.

Definition main : M Z :=
  file ← fopen "output.txt" ModeW;
  match file with
  | None =>
      printf (lit "Could not create file" ++ [LF]);;
      mret 1
  | Some file =>
      fprintf file (lit "Hello from C!" ++ [LF]);;
      fclose file;;
      printf (lit "File written successfully" ++ [LF]);;
      mret 0
  end.

End FileWrite.

(** ** Vocabulary of the properties *)

(** The string constants of the two programs. *)
Definition msg_no_open : list char := lit "Could not open file" ++ [LF].
Definition msg_no_create : list char := lit "Could not create file" ++ [LF].
Definition msg_written : list char := lit "File written successfully" ++ [LF].
Definition hello : list char := lit "Hello from C!" ++ [LF].

(** Either program, as a process started in a world. *)
Inductive program :=
| Reader (stack : nat → char)
| Writer.

Definition run (p : program) : M Z :=
  match p with
  | Reader stack => FileRead.main stack
  | Writer => FileWrite.main
  end.

(** Handle discipline of a sequence of library calls, given the handles
    [held] at its start: a successful open yields a handle not yet held, a
    close is of a held handle and gives it up, and nothing is held at the
    end.  So every handle acquired is released exactly once, and nothing is
    released that was not acquired. *)
Fixpoint released_once (held : list handle) (evs : list event) : bool :=
  match evs with
  | [] => bool_decide (held = [])
  | EOpen _ _ (Some h) :: evs' =>
      if bool_decide (h ∈ held) then false else released_once (h :: held) evs'
  | EClose h :: evs' =>
      if bool_decide (h ∈ held)
      then released_once (filter (fun h' => h' ≠ h) held) evs'
      else false
  | _ :: evs' => released_once held evs'
  end.

(** Does the sequence contain a read into a buffer? *)
Definition reads_buffer (evs : list event) : bool :=
  existsb (fun e => match e with EGets _ _ _ _ => true | _ => false end) evs.

(** The array after the reader's [fgets]: untouched at end of file,
    otherwise the line read, a terminator, and the rest of what was there. *)
Definition buffer_after_fgets (stack : nat → char) (text : list char) : list char :=
  match text with
  | [] => FileRead.declare_buffer stack
  | _ :: _ =>
      take_line 99 text ++ NUL ::
        drop (S (length (take_line 99 text))) (FileRead.declare_buffer stack)
  end.

(** The file at [path] once the writer has put [s] in it: the permissions
    are those it had, or those of a newly created file. *)
Definition file_with (w : world) (path : string) (s : list char) : inode :=
  match files w !! path with
  | Some f => Inode s (r_ok f) (w_ok f)
  | None => Inode s (fst (new_perm w)) (snd (new_perm w))
  end.

(** Concrete worlds and stacks for the examples.  [dir] is a working
    directory under the usual umask 022: new files may be read and
    written. *)
Definition dir (entries : list (string * inode)) (creatable : bool) : world :=
  World (true, true) (list_to_map entries) creatable ∅ [] [].

Definition stack_of (c : char) : nat → char := fun _ => c.

(** [test.txt] holds two lines and may be read. *)
Definition w_two_lines : world :=
  dir [("test.txt"%string, Inode (lit "hi" ++ [LF] ++ lit "more") true true)] true.

(** [test.txt] holds a line but may not be read. *)
Definition w_unreadable : world :=
  dir [("test.txt"%string, Inode (lit "hi" ++ [LF]) false true)] true.

(** [test.txt] holds the line [a\0b]. *)
Definition w_nul_line : world :=
  dir [("test.txt"%string, Inode (lit "a" ++ [NUL] ++ lit "b" ++ [LF]) true true)] true.

(** [test.txt] holds one line of 120 characters, and variants of it. *)
Definition long_line : list char := replicate 120 "x"%char.

Definition w_long_line : world :=
  dir [("test.txt"%string, Inode (long_line ++ [LF]) true true)] true.

Definition w_long_unreadable : world :=
  dir [("test.txt"%string, Inode (long_line ++ [LF]) false true)] true.

Definition long_line_nul : list char := lit "a" ++ [NUL] ++ replicate 118 "x"%char.

Definition w_long_nul : world :=
  dir [("test.txt"%string, Inode (long_line_nul ++ [LF]) true true)] true.

(** [test.txt] is there, may be read, and is empty. *)
Definition w_empty_file : world :=
  dir [("test.txt"%string, Inode [] true true)] true.

(** An empty working directory, one where files may be created and one where
    they may not. *)
Definition w_no_file : world := dir [] true.
Definition w_sealed : world := dir [] false.

(** An empty working directory under umask 0222: a new file may be read but
    not written once it is closed. *)
Definition w_masked : world := World (true, false) ∅ true ∅ [] [].

(** [output.txt] is there with old contents, writable or write-protected. *)
Definition w_old_output : world :=
  dir [("output.txt"%string, Inode (lit "old contents") true true)] true.

Definition w_readonly_output : world :=
  dir [("output.txt"%string, Inode (lit "old contents") true false)] true.

(** The texts of the [printf] calls of a sequence of library calls, in
    order. *)
Definition printed (evs : list event) : list (list char) :=
  omap (fun e => match e with EPrintf s => Some s | _ => None end) evs.

(** [test.txt] holds three characters and no newline. *)
Definition w_short_line : world :=
  dir [("test.txt"%string, Inode (lit "abc") true true)] true.

(** A stack of ['A'] bytes with one zero byte, at [i]. *)
Definition stack_zero_at (i : nat) : nat → char :=
  fun j => if (j =? i)%nat then NUL else "A"%char.

(** * Properties *)

(** Unfolding the monad and the prints of a [main]. *)
Ltac unfold_bind := unfold mbind, M_bind, bind.
Ltac unfold_printf := unfold printf, mret, M_ret, ret, record, set_out.

(** Closed facts about concrete lists are settled by evaluation. *)
Ltac by_computation :=
  match goal with
  | |- ?P => apply (@bool_decide_unpack P _); vm_compute; exact I
  end.

(** ** Characters, lines and C strings *)

Lemma NUL_neq_LF : NUL ≠ LF.
Proof. discriminate. Qed.

Lemma eqb_NUL_false (c : char) : c ≠ NUL → Ascii.eqb c NUL = false.
Proof. intros H. by apply Ascii.eqb_neq. Qed.

Lemma length_take_line k l : (length (take_line k l) ≤ k)%nat.
Proof.
  revert l. induction k as [|k IH]; intros [|c l]; simpl; try lia.
  destruct (Ascii.eqb c LF); simpl; [lia|]. specialize (IH l). lia.
Qed.

(** Up to the first newline [take_line] is [take]. *)
Lemma take_line_no_LF k l : LF ∉ take k l → take_line k l = take k l.
Proof.
  revert l. induction k as [|k IH]; intros [|c l]; simpl; try done.
  intros Hnot. apply not_elem_of_cons in Hnot as [Hc Hl].
  destruct (Ascii.eqb_spec c LF) as [->|_]; [done|]. by rewrite IH.
Qed.

(** A line that ends in a newline is read up to and with that newline, or
    up to [k] characters of it. *)
Lemma take_line_terminated k line rest :
  LF ∉ line → take_line k (line ++ LF :: rest) = take k (line ++ [LF]).
Proof.
  revert k. induction line as [|c line IH]; intros [|k] Hnot; simpl; try done.
  - by destruct k.
  - apply not_elem_of_cons in Hnot as [Hc Hl].
    destruct (Ascii.eqb_spec c LF) as [->|_]; [done|]. by rewrite IH.
Qed.

(** An array that starts with terminator-free characters and a terminator
    holds exactly those characters as a C string. *)
Lemma c_str_terminated s tail : NUL ∉ s → c_str (s ++ NUL :: tail) = Some s.
Proof.
  induction s as [|c s IH]; simpl; intros Hnot; [done|].
  apply not_elem_of_cons in Hnot as [Hc Hs].
  rewrite eqb_NUL_false by done. by rewrite IH.
Qed.

(** Any array with a terminator somewhere holds a C string. *)
Lemma c_str_is_Some mem : NUL ∈ mem → is_Some (c_str mem).
Proof.
  induction mem as [|c mem IH]; intros Hin; [by apply elem_of_nil in Hin|].
  simpl. destruct (Ascii.eqb_spec c NUL) as [->|Hc]; [by eexists|].
  apply elem_of_cons in Hin as [?|Hin]; [congruence|].
  destruct (IH Hin) as [s ->]. by eexists.
Qed.

Lemma c_str_None mem : NUL ∉ mem → c_str mem = None.
Proof.
  induction mem as [|c mem IH]; intros Hnot; [done|].
  apply not_elem_of_cons in Hnot as [Hc Hs]. simpl.
  rewrite eqb_NUL_false by done. by rewrite IH.
Qed.

(** Small runs of the two helpers. *)
Example take_line_stops_at_newline :
  take_line 99 (lit "abc" ++ [LF] ++ lit "def") = lit "abc" ++ [LF].
Proof. reflexivity. Qed.

Example take_line_stops_at_bound : take_line 2 (lit "abcdef") = lit "ab".
Proof. reflexivity. Qed.

Example take_line_unterminated : take_line 99 (lit "abc") = lit "abc".
Proof. reflexivity. Qed.

Example c_str_reads_to_terminator : c_str (lit "ab" ++ [NUL] ++ lit "cd") = Some (lit "ab").
Proof. reflexivity. Qed.

Example c_str_without_terminator : c_str (lit "abcd") = None.
Proof. reflexivity. Qed.

(** ** The library calls *)

Lemma length_declare_buffer stack : length (FileRead.declare_buffer stack) = 100%nat.
Proof. unfold FileRead.declare_buffer. by rewrite length_map, length_seq. Qed.

Lemma fresh_stream_None (w : world) : streams w !! fresh (dom (streams w)) = None.
Proof. apply not_elem_of_dom, is_fresh. Qed.

Lemma fopen_refused w path m :
  may_open w path m = false →
  fopen path m w = Ok None (record (EOpen path m None) w).
Proof. intros H. unfold fopen. by rewrite H. Qed.

Lemma fopen_granted_r w path :
  may_open w path ModeR = true →
  fopen path ModeR w =
    Ok (Some (fresh (dom (streams w))))
       (World (new_perm w) (files w) (dir_w w)
          (<[fresh (dom (streams w)) := Stream path ModeR 0 []]> (streams w))
          (out w) (log w ++ [EOpen path ModeR (Some (fresh (dom (streams w))))])).
Proof. intros H. unfold fopen. by rewrite H. Qed.

Lemma fopen_granted_w w path :
  may_open w path ModeW = true →
  fopen path ModeW w =
    Ok (Some (fresh (dom (streams w))))
       (World (new_perm w) (files (truncate path w)) (dir_w w)
          (<[fresh (dom (streams w)) := Stream path ModeW 0 []]> (streams w))
          (out w) (log w ++ [EOpen path ModeW (Some (fresh (dom (streams w))))])).
Proof. intros H. unfold fopen. by rewrite H. Qed.

(** The two outcomes of an open, read off the result of the call. *)
Lemma fopen_None_inv w path m w1 :
  fopen path m w = Ok None w1 → may_open w path m = false.
Proof.
  unfold fopen. destruct (may_open w path m); [|done].
  by destruct m.
Qed.

Lemma fopen_Some_inv w path m h w1 :
  fopen path m w = Ok (Some h) w1 →
  may_open w path m = true ∧ h = fresh (dom (streams w)).
Proof.
  unfold fopen. destruct (may_open w path m); [|done].
  destruct m; simpl; intros [= <- _]; done.
Qed.

(** A read that returns the buffer leaves a C string in it. *)
Lemma fgets_stores_string buf n h w buf' w' :
  fgets buf n h w = Ok (true, buf') w' → is_Some (c_str buf').
Proof.
  unfold fgets. destruct (streams w !! h) as [s|]; [|done].
  destruct (s_mode s), n, (drop (s_pos s) (contents w (s_path s))); try done.
  case_match; [|done]. intros [= <- _].
  apply c_str_is_Some. rewrite !elem_of_app, list_elem_of_singleton. auto.
Qed.

Lemma fgets_eof w h st buf n :
  streams w !! h = Some st →
  drop (s_pos st) (contents w (s_path st)) = [] →
  fgets buf n h w = Ok (false, buf) (record (EGets h n false buf) w).
Proof.
  intros Hst Heof. unfold fgets. rewrite Hst, Heof.
  by destruct (s_mode st), n.
Qed.

Lemma fgets_line w h st buf k rest :
  streams w !! h = Some st →
  s_mode st = ModeR →
  drop (s_pos st) (contents w (s_path st)) = rest →
  rest ≠ [] →
  (length (take_line k rest) < length buf)%nat →
  fgets buf (S k) h w =
    Ok (true, take_line k rest ++ NUL :: drop (S (length (take_line k rest))) buf)
       (World (new_perm w) (files w) (dir_w w)
          (<[h := Stream (s_path st) ModeR (s_pos st + length (take_line k rest))
                   (s_pending st)]> (streams w))
          (out w)
          (log w ++ [EGets h (S k) true
                       (take_line k rest ++ NUL :: drop (S (length (take_line k rest))) buf)])).
Proof.
  intros Hst Hmode Hrest Hne Hlen. unfold fgets. rewrite Hst, Hmode, Hrest.
  destruct rest as [|c rest'] eqn:E; [done|]. rewrite <- E in *.
  assert (length (take_line k rest ++ [NUL]) = S (length (take_line k rest))) as ->
    by (rewrite length_app; cbn [length]; lia).
  rewrite (proj2 (Nat.leb_le _ _)) by lia.
  by rewrite <- app_assoc.
Qed.

Lemma fclose_reader w h st :
  streams w !! h = Some st →
  s_mode st = ModeR →
  fclose h w =
    Ok () (World (new_perm w) (files w) (dir_w w) (delete h (streams w)) (out w)
             (log w ++ [EClose h])).
Proof. intros Hst Hmode. unfold fclose. by rewrite Hst, Hmode. Qed.

Lemma fclose_writer w h st f :
  streams w !! h = Some st →
  s_mode st = ModeW →
  files w !! s_path st = Some f →
  fclose h w =
    Ok () (World (new_perm w) (<[s_path st := Inode (data f ++ s_pending st) (r_ok f) (w_ok f)]> (files w))
             (dir_w w) (delete h (streams w)) (out w) (log w ++ [EClose h])).
Proof. intros Hst Hmode Hf. unfold fclose. by rewrite Hst, Hmode, Hf. Qed.

Lemma fprintf_writer w h st s :
  streams w !! h = Some st →
  s_mode st = ModeW →
  fprintf h s w =
    Ok () (World (new_perm w) (files w) (dir_w w)
             (<[h := Stream (s_path st) ModeW (s_pos st) (s_pending st ++ s)]> (streams w))
             (out w) (log w ++ [EFprintf h s])).
Proof. intros Hst Hmode. unfold fprintf. by rewrite Hst, Hmode. Qed.

(** ** From a file of the directory to the calls *)

Lemma may_open_r_Some w path f :
  files w !! path = Some f → may_open w path ModeR = r_ok f.
Proof. intros H. unfold may_open. by rewrite H. Qed.

Lemma contents_Some w path f :
  files w !! path = Some f → contents w path = data f.
Proof. intros H. unfold contents. by rewrite H. Qed.

Lemma not_elem_of_take_snoc (x c : char) n l :
  x ≠ c → x ∉ take n l → x ∉ take n (l ++ [c]).
Proof.
  intros Hne Hnot. rewrite take_app. apply not_elem_of_app. split; [done|].
  intros Hin. apply (subseteq_take _ [c]) in Hin.
  by apply list_elem_of_singleton in Hin.
Qed.

(** After a line was stored the array holds a terminator. *)
Lemma NUL_in_stored (got tail : list char) : NUL ∈ got ++ NUL :: tail.
Proof. rewrite elem_of_app, elem_of_cons. auto. Qed.

(** ** The run of the reader, in closed form *)

Section ReaderRun.

Variables (stack : nat → char) (w : world).

Lemma reader_refused :
  may_open w "test.txt" ModeR = false →
  FileRead.main stack w =
    Ok 1 (World (new_perm w) (files w) (dir_w w) (streams w) (out w ++ msg_no_open)
            (log w ++ [EOpen "test.txt" ModeR None; EPrintf msg_no_open])).
Proof.
  intros H. unfold FileRead.main. unfold_bind.
  rewrite (fopen_refused _ _ _ H). unfold_printf; simpl.
  by rewrite <- app_assoc.
Qed.

Lemma reader_granted :
  may_open w "test.txt" ModeR = true →
  let h := fresh (dom (streams w)) in
  let text := contents w "test.txt" in
  let buffer := buffer_after_fgets stack text in
  FileRead.main stack w =
    match c_str buffer with
    | None => Undefined
    | Some s =>
        Ok 0 (World (new_perm w) (files w) (dir_w w) (streams w)
                (out w ++ lit "Read: " ++ s ++ [LF])
                (log w ++ [EOpen "test.txt" ModeR (Some h);
                           EGets h 100 (bool_decide (text ≠ [])) buffer;
                           EPrintf (lit "Read: " ++ s ++ [LF]);
                           EClose h]))
    end.
Proof.
  intros H h text buffer. unfold FileRead.main. unfold_bind.
  rewrite (fopen_granted_r _ _ H). fold h.
  pose proof (fresh_stream_None w) as Hh. fold h in Hh.
  set (st := Stream "test.txt" ModeR 0 []).
  set (w1 := World _ _ _ (<[h:=st]> _) _ _).
  assert (Hst : streams w1 !! h = Some st) by apply lookup_insert_eq.
  assert (Htext : drop (s_pos st) (contents w1 (s_path st)) = text)
    by apply drop_0.
  destruct (decide (text = [])) as [Heof|Hne].
  - rewrite (fgets_eof w1 h st _ _ Hst) by congruence.
    subst buffer. rewrite Heof. cbn [buffer_after_fgets]. unfold printf_s.
    destruct (c_str (FileRead.declare_buffer stack)) as [s|]; [|done].
    unfold printf. rewrite (fclose_reader _ h st) by done.
    unfold_printf. subst w1. cbn [files dir_w streams out log].
    rewrite delete_insert_eq, delete_id by done.
    by rewrite <- !app_assoc.
  - rewrite (fgets_line w1 h st _ 99 text Hst eq_refl Htext Hne)
      by (rewrite length_declare_buffer; pose proof (length_take_line 99 text); lia).
    replace (take_line 99 text ++ NUL :: _) with buffer
      by (subst buffer; by destruct text).
    unfold printf_s. destruct (c_str buffer) as [s|]; [|done].
    unfold printf.
    rewrite (fclose_reader _ h (Stream "test.txt" ModeR (0 + length (take_line 99 text)) []))
      by (done || apply lookup_insert_eq).
    unfold_printf. subst w1. cbn [files dir_w streams out log].
    rewrite insert_insert_eq, delete_insert_eq, delete_id by done.
    rewrite bool_decide_true by done.
    by rewrite <- !app_assoc.
Qed.

(** What the reader does once the open has succeeded and a non-empty file
    starts with terminator-free characters [got] that [fgets] takes. *)
Lemma reader_reads got :
  may_open w "test.txt" ModeR = true →
  contents w "test.txt" ≠ [] →
  take_line 99 (contents w "test.txt") = got →
  NUL ∉ got →
  FileRead.main stack w =
    Ok 0 (World (new_perm w) (files w) (dir_w w) (streams w)
            (out w ++ lit "Read: " ++ got ++ [LF])
            (log w ++ [EOpen "test.txt" ModeR (Some (fresh (dom (streams w))));
                       EGets (fresh (dom (streams w))) 100 true
                         (got ++ NUL :: drop (S (length got)) (FileRead.declare_buffer stack));
                       EPrintf (lit "Read: " ++ got ++ [LF]);
                       EClose (fresh (dom (streams w)))])).
Proof.
  intros Hopen Hne Hgot Hnul. rewrite (reader_granted Hopen).
  rewrite bool_decide_true by done.
  destruct (contents w "test.txt") as [|c text] eqn:E; [done|].
  cbn [buffer_after_fgets]. rewrite Hgot.
  by rewrite c_str_terminated.
Qed.

(** The reader returns on every run but one kind: the open succeeded, the
    file is empty, and the bytes the buffer started with hold no
    terminator. *)
Lemma reader_undefined_iff :
  FileRead.main stack w = Undefined ↔
  may_open w "test.txt" ModeR = true ∧
  contents w "test.txt" = [] ∧
  c_str (FileRead.declare_buffer stack) = None.
Proof.
  destruct (may_open w "test.txt" ModeR) eqn:Hopen.
  - rewrite (reader_granted Hopen).
    destruct (contents w "test.txt") as [|c text]; cbn [buffer_after_fgets].
    + destruct (c_str (FileRead.declare_buffer stack)); [|done].
      split; [discriminate|]. by intros (_ & _ & ?).
    + destruct (c_str_is_Some _ (NUL_in_stored (take_line 99 (c :: text))
                  (drop (S (length (take_line 99 (c :: text))))
                     (FileRead.declare_buffer stack)))) as [s ->].
      split; [discriminate|]. by intros (_ & ? & _).
  - rewrite (reader_refused Hopen). split; [discriminate|]. by intros (? & _).
Qed.

(** With an empty file and no zero byte on the stack under the buffer the
    run is undefined. *)
Lemma reader_empty_unterminated :
  may_open w "test.txt" ModeR = true →
  contents w "test.txt" = [] →
  (∀ i, stack i ≠ NUL) →
  FileRead.main stack w = Undefined.
Proof.
  intros Hopen Hempty Hstack. apply reader_undefined_iff.
  split; [done|]. split; [done|]. apply c_str_None.
  unfold FileRead.declare_buffer. intros Hin.
  apply list_elem_of_fmap in Hin as (i & Hi & _). by apply (Hstack i).
Qed.

(** After a successful open of a non-empty file the reader prints one
    [Read: ] line and returns 0. *)
Lemma reader_returns_0_after_read :
  may_open w "test.txt" ModeR = true →
  contents w "test.txt" ≠ [] →
  ∃ s w', FileRead.main stack w = Ok 0 w' ∧
          out w' = out w ++ lit "Read: " ++ s ++ [LF].
Proof.
  intros Hopen Hne. rewrite (reader_granted Hopen).
  destruct (contents w "test.txt") as [|c text]; [done|]. cbn [buffer_after_fgets].
  destruct (c_str_is_Some _ (NUL_in_stored (take_line 99 (c :: text))
              (drop (S (length (take_line 99 (c :: text))))
                 (FileRead.declare_buffer stack)))) as [s ->].
  by eexists _, _.
Qed.

End ReaderRun.

(** ** The run of the writer, in closed form *)

Section WriterRun.

Variable w : world.

Lemma writer_refused :
  may_open w "output.txt" ModeW = false →
  FileWrite.main w =
    Ok 1 (World (new_perm w) (files w) (dir_w w) (streams w) (out w ++ msg_no_create)
            (log w ++ [EOpen "output.txt" ModeW None; EPrintf msg_no_create])).
Proof.
  intros H. unfold FileWrite.main. unfold_bind.
  rewrite (fopen_refused _ _ _ H). unfold_printf; simpl.
  by rewrite <- app_assoc.
Qed.

Lemma writer_granted :
  may_open w "output.txt" ModeW = true →
  let h := fresh (dom (streams w)) in
  FileWrite.main w =
    Ok 0 (World (new_perm w) (<["output.txt" := file_with w "output.txt" hello]> (files w))
            (dir_w w) (streams w) (out w ++ msg_written)
            (log w ++ [EOpen "output.txt" ModeW (Some h);
                       EFprintf h hello;
                       EClose h;
                       EPrintf msg_written])).
Proof.
  intros H h. unfold FileWrite.main. unfold_bind.
  rewrite (fopen_granted_w _ _ H). fold h.
  pose proof (fresh_stream_None w) as Hh. fold h in Hh.
  set (st := Stream "output.txt" ModeW 0 []).
  rewrite (fprintf_writer _ h st) by (done || apply lookup_insert_eq).
  cbn [files dir_w streams out log s_path s_pos s_pending app].
  rewrite (fclose_writer _ h (Stream "output.txt" ModeW 0 (lit "Hello from C!" ++ [LF]))
             (file_with w "output.txt" []))
    by (done || apply lookup_insert_eq).
  unfold_printf. cbn [files dir_w streams out log s_path s_pending].
  rewrite !insert_insert_eq, delete_insert_eq, delete_id by done.
  rewrite <- !app_assoc. cbn [app].
  unfold truncate, set_files. cbn [files]. rewrite insert_insert_eq.
  by unfold file_with; destruct (files w !! "output.txt").
Qed.

(** The writer always returns. *)
Lemma writer_returns : ∃ code w', FileWrite.main w = Ok code w'.
Proof.
  destruct (may_open w "output.txt" ModeW) eqn:Hopen.
  - rewrite (writer_granted Hopen). by eexists _, _.
  - rewrite (writer_refused Hopen). by eexists _, _.
Qed.

End WriterRun.

(** ** The claims *)

(** C1 (amended).  When [test.txt] can be opened for reading, its first line
    ends in a newline and the part of that line the read takes (the line or
    its first 99 bytes) holds no zero byte, the reader appends to standard
    output [Read: ], that first line up to and with its newline or up to 99
    bytes, whichever comes first, and a newline, and exits with status 0. *)
Theorem C1_reader_prints_first_line
    (stack : nat → char) (w : world) (f : inode) (line rest : list char) :
  files w !! "test.txt" = Some f →
  r_ok f = true →
  data f = line ++ LF :: rest →
  LF ∉ line →
  NUL ∉ take 99 line →
  ∃ w', FileRead.main stack w = Ok 0 w' ∧
        out w' = out w ++ lit "Read: " ++ take 99 (line ++ [LF]) ++ [LF].
Proof.
  intros Hf Hr Hdata HLF HNUL.
  assert (Hopen : may_open w "test.txt" ModeR = true)
    by (by rewrite (may_open_r_Some _ _ _ Hf)).
  pose proof (contents_Some _ _ _ Hf) as Htext. rewrite Hdata in Htext.
  eexists. split.
  - apply (reader_reads stack w (take 99 (line ++ [LF])) Hopen).
    + rewrite Htext. by destruct line.
    + rewrite Htext. by apply take_line_terminated.
    + apply not_elem_of_take_snoc; [apply NUL_neq_LF|done].
  - reflexivity.
Qed.

Lemma C1_reader_prints_first_line_witness :
  ∃ w', FileRead.main (stack_of "A") w_two_lines = Ok 0 w' ∧
        out w' = out w_two_lines ++ lit "Read: " ++ take 99 (lit "hi" ++ [LF]) ++ [LF].
Proof.
  apply (C1_reader_prints_first_line (stack_of "A") w_two_lines
           (Inode (lit "hi" ++ [LF] ++ lit "more") true true) (lit "hi") (lit "more"));
    [reflexivity | reflexivity | reflexivity | by_computation | by_computation].
Defined.

(** C1 as stated fails.  A [test.txt] that exists with a newline-terminated
    first line but may not be read makes the reader exit with status 1; one
    whose first line holds a zero byte is printed only up to that byte. *)
Lemma C1_counterexample :
  (files w_unreadable !! "test.txt" = Some (Inode (lit "hi" ++ LF :: []) false true) ∧
   (LF ∉ lit "hi") ∧
   ∃ w', FileRead.main (stack_of "A") w_unreadable = Ok 1 w' ∧
         out w' = msg_no_open) ∧
  (files w_nul_line !! "test.txt"
     = Some (Inode ((lit "a" ++ [NUL] ++ lit "b") ++ LF :: []) true true) ∧
   (LF ∉ lit "a" ++ [NUL] ++ lit "b") ∧
   ∃ w', FileRead.main (stack_of "A") w_nul_line = Ok 0 w' ∧
         out w' = lit "Read: a" ++ [LF] ∧
         out w' ≠ lit "Read: " ++ take 99 ((lit "a" ++ [NUL] ++ lit "b") ++ [LF]) ++ [LF]).
Proof.
  split.
  - split; [reflexivity|]. split; [by_computation|].
    eexists. split; [vm_compute; reflexivity|reflexivity].
  - split; [reflexivity|]. split; [by_computation|].
    eexists. split; [vm_compute; reflexivity|]. split; [reflexivity|discriminate].
Qed.

(** C2 (amended).  Whenever [output.txt] can be opened for writing (it is
    there and writable, with any contents, or it is missing and may be
    created), the writer leaves it holding exactly the line [Hello from C!]
    and a newline, and exits with status 0. *)
Theorem C2_writer_leaves_hello (w : world) :
  may_open w "output.txt" ModeW = true →
  ∃ w', FileWrite.main w = Ok 0 w' ∧
        data <$> files w' !! "output.txt" = Some (lit "Hello from C!" ++ [LF]).
Proof.
  intros Hopen. rewrite (writer_granted _ Hopen). eexists. split; [reflexivity|].
  cbn [files]. rewrite lookup_insert_eq. unfold file_with.
  by destruct (files w !! "output.txt").
Qed.

Lemma C2_writer_leaves_hello_witness :
  (∃ w', FileWrite.main w_old_output = Ok 0 w' ∧
         data <$> files w' !! "output.txt" = Some (lit "Hello from C!" ++ [LF])) ∧
  (∃ w', FileWrite.main w_no_file = Ok 0 w' ∧
         data <$> files w' !! "output.txt" = Some (lit "Hello from C!" ++ [LF])).
Proof.
  split.
  - apply (C2_writer_leaves_hello w_old_output). reflexivity.
  - apply (C2_writer_leaves_hello w_no_file). reflexivity.
Defined.

(** C2 as stated fails.  With a write-protected [output.txt] the open is
    refused: the writer exits with status 1 and the old contents stay.  With
    [output.txt] absent from a directory where nothing may be created the
    writer exits with status 1 and the file is still absent. *)
Lemma C2_counterexample :
  (data <$> files w_readonly_output !! "output.txt" = Some (lit "old contents") ∧
   ∃ w', FileWrite.main w_readonly_output = Ok 1 w' ∧
         data <$> files w' !! "output.txt" = Some (lit "old contents") ∧
         out w' = msg_no_create) ∧
  (files w_sealed !! "output.txt" = None ∧
   ∃ w', FileWrite.main w_sealed = Ok 1 w' ∧
         files w' !! "output.txt" = None ∧
         out w' = msg_no_create).
Proof.
  split; (split; [reflexivity|]);
    eexists; (split; [vm_compute; reflexivity|]); split; reflexivity.
Qed.

(** C3.  When the open of [test.txt] fails, the reader prints the failure
    message, exits with status 1 and makes no read into a buffer; files,
    directory and open streams are as they were. *)
Theorem C3_reader_open_failure (stack : nat → char) (w w1 : world) :
  fopen "test.txt" ModeR w = Ok None w1 →
  ∃ w', FileRead.main stack w = Ok 1 w' ∧
        out w' = out w ++ lit "Could not open file" ++ [LF] ∧
        (∃ evs, log w' = log w ++ evs ∧ reads_buffer evs = false) ∧
        files w' = files w ∧ dir_w w' = dir_w w ∧ streams w' = streams w.
Proof.
  intros Hopen. apply fopen_None_inv in Hopen.
  rewrite (reader_refused _ _ Hopen). eexists. split; [reflexivity|].
  cbn [out log files dir_w streams]. repeat split; try done.
  by eexists.
Qed.

Lemma C3_reader_open_failure_witness :
  ∃ w', FileRead.main (stack_of "A") w_no_file = Ok 1 w' ∧
        out w' = out w_no_file ++ lit "Could not open file" ++ [LF] ∧
        (∃ evs, log w' = log w_no_file ++ evs ∧ reads_buffer evs = false) ∧
        files w' = files w_no_file ∧ dir_w w' = dir_w w_no_file ∧
        streams w' = streams w_no_file.
Proof.
  apply (C3_reader_open_failure (stack_of "A") w_no_file
           (record (EOpen "test.txt" ModeR None) w_no_file)).
  reflexivity.
Defined.

(** C4 (amended).  When [output.txt] can be opened for writing, two runs
    of the writer in a row leave it holding the line once, not twice (the
    open truncates, it does not append), and the files after the second run
    are the files after the first, whether the second open is granted or,
    the file having been created write-protected, refused. *)
Theorem C4_writer_twice (w : world) :
  may_open w "output.txt" ModeW = true →
  ∃ w1 c2 w2,
    FileWrite.main w = Ok 0 w1 ∧
    FileWrite.main w1 = Ok c2 w2 ∧
    files w2 = files w1 ∧
    data <$> files w2 !! "output.txt" = Some (lit "Hello from C!" ++ [LF]).
Proof.
  intros Hopen. rewrite (writer_granted _ Hopen).
  set (w1 := World _ _ _ _ _ _).
  assert (Hf1 : files w1 !! "output.txt" = Some (file_with w "output.txt" hello))
    by apply lookup_insert_eq.
  assert (Hdata : data <$> files w1 !! "output.txt" = Some hello).
  { rewrite Hf1. unfold file_with. by destruct (files w !! "output.txt"). }
  destruct (may_open w1 "output.txt" ModeW) eqn:Hopen1.
  - assert (Hsame : file_with w1 "output.txt" hello = file_with w "output.txt" hello).
    { unfold file_with at 1. rewrite Hf1. unfold file_with.
      by destruct (files w !! "output.txt"). }
    eexists w1, 0, _. split; [reflexivity|].
    split; [apply (writer_granted _ Hopen1)|].
    cbn [files]. rewrite Hsame. subst w1. cbn [files]. rewrite insert_insert_eq.
    split; [done|].
    rewrite lookup_insert_eq. unfold file_with. by destruct (files w !! "output.txt").
  - eexists w1, 1, _. split; [reflexivity|].
    split; [apply (writer_refused _ Hopen1)|]. cbn [files]. by split.
Qed.

Lemma C4_writer_twice_witness :
  (∃ w1 c2 w2,
     FileWrite.main w_old_output = Ok 0 w1 ∧
     FileWrite.main w1 = Ok c2 w2 ∧
     files w2 = files w1 ∧
     data <$> files w2 !! "output.txt" = Some (lit "Hello from C!" ++ [LF])) ∧
  (∃ w1 c2 w2,
     FileWrite.main w_masked = Ok 0 w1 ∧
     FileWrite.main w1 = Ok c2 w2 ∧
     files w2 = files w1 ∧
     data <$> files w2 !! "output.txt" = Some (lit "Hello from C!" ++ [LF])).
Proof.
  split.
  - apply (C4_writer_twice w_old_output). reflexivity.
  - apply (C4_writer_twice w_masked). reflexivity.
Defined.

(** C4 as stated fails.  With a write-protected [output.txt] both runs are
    refused, each returns 1, and the file holds its old contents, no write's
    content. *)
Lemma C4_counterexample :
  ∃ w1 w2,
    FileWrite.main w_readonly_output = Ok 1 w1 ∧
    FileWrite.main w1 = Ok 1 w2 ∧
    data <$> files w2 !! "output.txt" = Some (lit "old contents") ∧
    data <$> files w2 !! "output.txt" ≠ Some (lit "Hello from C!" ++ [LF]).
Proof.
  eexists _, _. split; [vm_compute; reflexivity|]. split; [vm_compute; reflexivity|].
  split; [reflexivity|discriminate].
Qed.

(** Under a umask that write-protects new files the first run creates
    [output.txt] and writes the line, and the second run is refused. *)
Example writer_twice_masked :
  ∃ w1 w2,
    FileWrite.main w_masked = Ok 0 w1 ∧
    FileWrite.main w1 = Ok 1 w2 ∧
    files w2 !! "output.txt" = Some (Inode (lit "Hello from C!" ++ [LF]) true false).
Proof.
  eexists _, _. split; [vm_compute; reflexivity|]. split; [vm_compute; reflexivity|].
  reflexivity.
Qed.

(** C5 (amended).  When [test.txt] can be opened for reading and its first
    line is longer than 99 characters, the read stores exactly the first 99
    of them and a terminator, which fills the 100-byte buffer and goes no
    further; this holds whatever those characters are.  The reader then
    reports the string the buffer holds and returns 0, and when the 99
    characters hold no zero byte that string is exactly them. *)
Theorem C5_long_line_truncated
    (stack : nat → char) (w : world) (f : inode) (line rest : list char) :
  files w !! "test.txt" = Some f →
  r_ok f = true →
  data f = line ++ rest →
  LF ∉ line →
  (99 < length line)%nat →
  ∃ w' h s,
    FileRead.main stack w = Ok 0 w' ∧
    log w' = log w ++ [EOpen "test.txt" ModeR (Some h);
                       EGets h 100 true (take 99 line ++ [NUL]);
                       EPrintf (lit "Read: " ++ s ++ [LF]);
                       EClose h] ∧
    length (take 99 line ++ [NUL]) = length (FileRead.declare_buffer stack) ∧
    c_str (take 99 line ++ [NUL]) = Some s ∧
    out w' = out w ++ lit "Read: " ++ s ++ [LF] ∧
    (NUL ∉ take 99 line → s = take 99 line).
Proof.
  intros Hf Hr Hdata HLF Hlong.
  assert (Hopen : may_open w "test.txt" ModeR = true)
    by (by rewrite (may_open_r_Some _ _ _ Hf)).
  pose proof (contents_Some _ _ _ Hf) as Htext. rewrite Hdata in Htext.
  assert (Htake : take 99 (line ++ rest) = take 99 line)
    by (apply take_app_le; lia).
  assert (Hlen : length (take 99 line) = 99%nat)
    by (apply length_take_le; lia).
  assert (Hgot : take_line 99 (line ++ rest) = take 99 line).
  { rewrite <- Htake. apply take_line_no_LF. rewrite Htake.
    intros Hin. by apply subseteq_take in Hin. }
  assert (Hne : line ++ rest ≠ []) by (destruct line; [simpl in Hlong; lia|done]).
  rewrite (reader_granted _ _ Hopen), Htext.
  rewrite bool_decide_true by done.
  assert (Hbuf : buffer_after_fgets stack (line ++ rest) = take 99 line ++ [NUL]).
  { destruct (line ++ rest) as [|c text] eqn:E; [done|].
    cbn [buffer_after_fgets]. rewrite Hgot, Hlen.
    by rewrite drop_ge by (rewrite length_declare_buffer; lia). }
  rewrite Hbuf.
  destruct (c_str_is_Some (take 99 line ++ [NUL])) as [s Hs];
    [rewrite elem_of_app, list_elem_of_singleton; auto|].
  rewrite Hs. eexists _, (fresh (dom (streams w))), s.
  split; [reflexivity|]. split; [reflexivity|].
  split; [by rewrite length_app, Hlen, length_declare_buffer|].
  split; [done|]. split; [reflexivity|].
  intros HNUL. rewrite c_str_terminated in Hs by done. congruence.
Qed.

Lemma C5_long_line_truncated_witness :
  (∃ w' h s,
     FileRead.main (stack_of "A") w_long_line = Ok 0 w' ∧
     log w' = log w_long_line ++
                [EOpen "test.txt" ModeR (Some h);
                 EGets h 100 true (take 99 long_line ++ [NUL]);
                 EPrintf (lit "Read: " ++ s ++ [LF]);
                 EClose h] ∧
     length (take 99 long_line ++ [NUL])
       = length (FileRead.declare_buffer (stack_of "A")) ∧
     c_str (take 99 long_line ++ [NUL]) = Some s ∧
     out w' = out w_long_line ++ lit "Read: " ++ s ++ [LF] ∧
     (NUL ∉ take 99 long_line → s = take 99 long_line)) ∧
  (∃ w' h s,
     FileRead.main (stack_of "A") w_long_nul = Ok 0 w' ∧
     log w' = log w_long_nul ++
                [EOpen "test.txt" ModeR (Some h);
                 EGets h 100 true (take 99 long_line_nul ++ [NUL]);
                 EPrintf (lit "Read: " ++ s ++ [LF]);
                 EClose h] ∧
     length (take 99 long_line_nul ++ [NUL])
       = length (FileRead.declare_buffer (stack_of "A")) ∧
     c_str (take 99 long_line_nul ++ [NUL]) = Some s ∧
     out w' = out w_long_nul ++ lit "Read: " ++ s ++ [LF] ∧
     (NUL ∉ take 99 long_line_nul → s = take 99 long_line_nul)).
Proof.
  split.
  - apply (C5_long_line_truncated (stack_of "A") w_long_line
             (Inode (long_line ++ [LF]) true true) long_line [LF]);
      [reflexivity | reflexivity | reflexivity | by_computation | vm_compute; lia].
  - apply (C5_long_line_truncated (stack_of "A") w_long_nul
             (Inode (long_line_nul ++ [LF]) true true) long_line_nul [LF]);
      [reflexivity | reflexivity | reflexivity | by_computation | vm_compute; lia].
Defined.

(** C5 as stated fails.  A [test.txt] with a 120-character first line that
    may not be read is not read at all: no read is made and nothing of the
    line is reported.  One whose long first line holds a zero byte is read
    as claimed, 99 characters and a terminator into the buffer, but
    reported only up to that byte. *)
Lemma C5_counterexample :
  (files w_long_unreadable !! "test.txt" = Some (Inode (long_line ++ [LF]) false true) ∧
   (LF ∉ long_line) ∧ (99 < length long_line)%nat ∧
   ∃ w', FileRead.main (stack_of "A") w_long_unreadable = Ok 1 w' ∧
         log w' = [EOpen "test.txt" ModeR None; EPrintf msg_no_open] ∧
         reads_buffer (log w') = false ∧
         out w' = msg_no_open) ∧
  (files w_long_nul !! "test.txt" = Some (Inode (long_line_nul ++ [LF]) true true) ∧
   (LF ∉ long_line_nul) ∧ (99 < length long_line_nul)%nat ∧
   ∃ w', FileRead.main (stack_of "A") w_long_nul = Ok 0 w' ∧
         log w' = [EOpen "test.txt" ModeR (Some 0%nat);
                   EGets 0%nat 100 true (take 99 long_line_nul ++ [NUL]);
                   EPrintf (lit "Read: a" ++ [LF]);
                   EClose 0%nat] ∧
         out w' = lit "Read: a" ++ [LF] ∧
         out w' ≠ lit "Read: " ++ take 99 long_line_nul ++ [LF]).
Proof.
  split.
  - split; [reflexivity|]. split; [by_computation|]. split; [vm_compute; lia|].
    eexists. split; [vm_compute; reflexivity|]. by repeat split.
  - split; [reflexivity|]. split; [by_computation|]. split; [vm_compute; lia|].
    eexists. split; [vm_compute; reflexivity|].
    split; [reflexivity|]. split; [reflexivity|discriminate].
Qed.

(** C6 (failing input).  [test.txt] is empty and the stack under the buffer
    holds no zero byte: the open succeeds, the read returns [NULL] and
    leaves the buffer as it was, the buffer holds no terminated string, and
    the print that follows runs past it. *)
Theorem C6_empty_file_buffer_unterminated :
  ∃ h w1 w2,
    fopen "test.txt" ModeR w_empty_file = Ok (Some h) w1 ∧
    fgets (FileRead.declare_buffer (stack_of "A")) 100 h w1
      = Ok (false, FileRead.declare_buffer (stack_of "A")) w2 ∧
    c_str (FileRead.declare_buffer (stack_of "A")) = None ∧
    FileRead.main (stack_of "A") w_empty_file = Undefined.
Proof.
  eexists _, _, _. split; [vm_compute; reflexivity|].
  split; [vm_compute; reflexivity|]. split; vm_compute; reflexivity.
Qed.

(** The same empty file over two stacks: over one without a zero byte the
    print runs past the buffer, over a zeroed one the reader prints [Read: ]
    and a newline and returns 0. *)
Example reader_empty_file_two_stacks :
  may_open w_empty_file "test.txt" ModeR = true ∧
  contents w_empty_file "test.txt" = [] ∧
  FileRead.main (stack_of "A") w_empty_file = Undefined ∧
  ∃ w', FileRead.main (stack_of NUL) w_empty_file = Ok 0 w' ∧
        out w' = lit "Read: " ++ [LF].
Proof.
  split; [reflexivity|]. split; [reflexivity|]. split; [vm_compute; reflexivity|].
  eexists. split; [vm_compute; reflexivity|reflexivity].
Qed.



(** The handle discipline rejects a leak, a close of a handle never
    acquired, and a second close. *)
Example released_once_leak :
  released_once [] [EOpen "test.txt" ModeR (Some 0%nat)] = false.
Proof. reflexivity. Qed.

Example released_once_stray_close : released_once [] [EClose 0%nat] = false.
Proof. reflexivity. Qed.

Example released_once_double_close :
  released_once [] [EOpen "test.txt" ModeR (Some 0%nat); EClose 0%nat; EClose 0%nat] = false.
Proof. reflexivity. Qed.

(** One open, calls on other things, one close of the same handle: the
    discipline holds. *)
Lemma released_once_reader h n b buf s :
  released_once []
    [EOpen "test.txt" ModeR (Some h); EGets h n b buf; EPrintf s; EClose h] = true.
Proof.
  cbn [released_once]. rewrite bool_decide_false by apply not_elem_of_nil.
  rewrite bool_decide_true by apply list_elem_of_here.
  rewrite filter_cons_False by (intros Hne; by apply Hne).
  by rewrite filter_nil.
Qed.

Lemma released_once_writer h s1 s2 :
  released_once []
    [EOpen "output.txt" ModeW (Some h); EFprintf h s1; EClose h; EPrintf s2] = true.
Proof.
  cbn [released_once]. rewrite bool_decide_false by apply not_elem_of_nil.
  rewrite bool_decide_true by apply list_elem_of_here.
  rewrite filter_cons_False by (intros Hne; by apply Hne).
  by rewrite filter_nil.
Qed.

(** C7.  Every run of the reader or the writer that returns has kept the
    handle discipline: each handle it acquired was released exactly once
    before the return, nothing was released that had not been acquired, and
    the open streams at the return are those at the start. *)
Theorem C7_handles_released_once (p : program) (w : world) (code : Z) (w' : world) :
  run p w = Ok code w' →
  ∃ evs, log w' = log w ++ evs ∧
         released_once [] evs = true ∧
         streams w' = streams w.
Proof.
  destruct p as [stack|]; cbn [run].
  - destruct (may_open w "test.txt" ModeR) eqn:Hopen.
    + rewrite (reader_granted _ _ Hopen).
      destruct (c_str _) as [s|]; [|done]. intros [= _ <-].
      eexists. split; [reflexivity|]. split; [apply released_once_reader|done].
    + rewrite (reader_refused _ _ Hopen). intros [= _ <-].
      eexists. split; [reflexivity|]. done.
  - destruct (may_open w "output.txt" ModeW) eqn:Hopen.
    + rewrite (writer_granted _ Hopen). intros [= _ <-].
      eexists. split; [reflexivity|]. split; [apply released_once_writer|done].
    + rewrite (writer_refused _ Hopen). intros [= _ <-].
      eexists. split; [reflexivity|]. done.
Qed.

Lemma C7_handles_released_once_witness :
  (∃ w', run (Reader (stack_of "A")) w_two_lines = Ok 0 w' ∧
         ∃ evs, log w' = log w_two_lines ++ evs ∧
                released_once [] evs = true ∧
                streams w' = streams w_two_lines) ∧
  (∃ w', run Writer w_readonly_output = Ok 1 w' ∧
         ∃ evs, log w' = log w_readonly_output ++ evs ∧
                released_once [] evs = true ∧
                streams w' = streams w_readonly_output).
Proof.
  split; eexists; (split; [vm_compute; reflexivity|]).
  - apply (C7_handles_released_once (Reader (stack_of "A")) w_two_lines 0).
    vm_compute; reflexivity.
  - apply (C7_handles_released_once Writer w_readonly_output 1).
    vm_compute; reflexivity.
Defined.

(** C8.  When the open of [output.txt] succeeds, the writer returns 0 and
    its success line is appended to standard output; the calls it made are
    the open, the write of the line, the close, and only then the print. *)
Theorem C8_writer_reports_success (w : world) (h : handle) (w1 : world) :
  fopen "output.txt" ModeW w = Ok (Some h) w1 →
  ∃ w', FileWrite.main w = Ok 0 w' ∧
        out w' = out w ++ lit "File written successfully" ++ [LF] ∧
        log w' = log w ++ [EOpen "output.txt" ModeW (Some h);
                           EFprintf h (lit "Hello from C!" ++ [LF]);
                           EClose h;
                           EPrintf (lit "File written successfully" ++ [LF])].
Proof.
  intros Hopen. apply fopen_Some_inv in Hopen as [Hopen ->].
  rewrite (writer_granted _ Hopen). by eexists.
Qed.

Lemma C8_writer_reports_success_witness :
  ∃ w', FileWrite.main w_old_output = Ok 0 w' ∧
        out w' = out w_old_output ++ lit "File written successfully" ++ [LF] ∧
        log w' = log w_old_output ++
                   [EOpen "output.txt" ModeW (Some 0%nat);
                    EFprintf 0%nat (lit "Hello from C!" ++ [LF]);
                    EClose 0%nat;
                    EPrintf (lit "File written successfully" ++ [LF])].
Proof.
  eapply (C8_writer_reports_success w_old_output 0%nat).
  vm_compute; reflexivity.
Defined.

(** C10.  Whenever the reader returns, every file of the working directory,
    [test.txt] among them, is as it was before the run, and so is the
    directory's permission to create files. *)
Theorem C10_reader_leaves_files (stack : nat → char) (w : world) (code : Z) (w' : world) :
  FileRead.main stack w = Ok code w' →
  files w' = files w ∧
  files w' !! "test.txt" = files w !! "test.txt" ∧
  dir_w w' = dir_w w.
Proof.
  destruct (may_open w "test.txt" ModeR) eqn:Hopen.
  - rewrite (reader_granted _ _ Hopen).
    destruct (c_str _) as [s|]; [|done]. by intros [= _ <-].
  - rewrite (reader_refused _ _ Hopen). by intros [= _ <-].
Qed.

Lemma C10_reader_leaves_files_witness :
  ∃ w', FileRead.main (stack_of "A") w_two_lines = Ok 0 w' ∧
        files w' = files w_two_lines ∧
        files w' !! "test.txt" = files w_two_lines !! "test.txt" ∧
        dir_w w' = dir_w w_two_lines.
Proof.
  eexists. split; [vm_compute; reflexivity|].
  apply (C10_reader_leaves_files (stack_of "A") w_two_lines 0).
  vm_compute; reflexivity.
Defined.

(** * Further properties of the two programs *)

(** ** More on lines and C strings *)

(** Reading a line runs through a newline-free prefix that fits. *)
Lemma take_line_app k pre l :
  LF ∉ pre → (length pre ≤ k)%nat →
  take_line k (pre ++ l) = pre ++ take_line (k - length pre) l.
Proof.
  revert k. induction pre as [|c pre IH]; intros k Hnot Hlen.
  - by rewrite Nat.sub_0_r.
  - apply not_elem_of_cons in Hnot as [Hc Hpre].
    destruct k as [|k]; [simpl in Hlen; lia|]. cbn [app take_line length Nat.sub].
    destruct (Ascii.eqb_spec c LF) as [->|_]; [done|].
    rewrite IH; [done|done|]. simpl in Hlen. lia.
Qed.

(** What follows the first terminator of an array does not show. *)
Lemma c_str_tail_irrelevant s t1 t2 : c_str (s ++ NUL :: t1) = c_str (s ++ NUL :: t2).
Proof.
  induction s as [|c s IH]; [done|]. cbn [app c_str].
  destruct (Ascii.eqb c NUL); [done|]. by rewrite IH.
Qed.



(** The string an untouched buffer holds when the first zero byte of the
    stack under it is at [i]. *)
Lemma c_str_declare_buffer stack i :
  (i < 100)%nat → stack i = NUL → (∀ j, (j < i)%nat → stack j ≠ NUL) →
  c_str (FileRead.declare_buffer stack) = Some (map stack (seq 0 i)).
Proof.
  intros Hi Hzero Hbefore. unfold FileRead.declare_buffer.
  replace 100%nat with (i + S (99 - i))%nat by lia.
  rewrite seq_app, map_app. cbn [seq map Nat.add]. rewrite Hzero.
  apply c_str_terminated. intros Hin.
  apply list_elem_of_fmap in Hin as (j & Hj & Hin).
  apply elem_of_seq in Hin. apply (Hbefore j); [lia|done].
Qed.

(** ** Failure and exit status *)

(** When the open of [output.txt] fails, the writer prints its failure
    message, returns 1 and makes no other call; files, directory and open
    streams are as they were. *)
Theorem writer_open_failure (w w1 : world) :
  fopen "output.txt" ModeW w = Ok None w1 →
  ∃ w', FileWrite.main w = Ok 1 w' ∧
        out w' = out w ++ lit "Could not create file" ++ [LF] ∧
        log w' = log w ++ [EOpen "output.txt" ModeW None;
                           EPrintf (lit "Could not create file" ++ [LF])] ∧
        files w' = files w ∧ dir_w w' = dir_w w ∧ streams w' = streams w.
Proof.
  intros Hopen. apply fopen_None_inv in Hopen.
  rewrite (writer_refused _ Hopen). by eexists.
Qed.

Lemma writer_open_failure_witness :
  ∃ w', FileWrite.main w_readonly_output = Ok 1 w' ∧
        out w' = out w_readonly_output ++ lit "Could not create file" ++ [LF] ∧
        log w' = log w_readonly_output ++
                   [EOpen "output.txt" ModeW None;
                    EPrintf (lit "Could not create file" ++ [LF])] ∧
        files w' = files w_readonly_output ∧
        dir_w w' = dir_w w_readonly_output ∧
        streams w' = streams w_readonly_output.
Proof.
  apply (writer_open_failure w_readonly_output
           (record (EOpen "output.txt" ModeW None) w_readonly_output)).
  reflexivity.
Defined.

(** Whenever the reader returns, its status is 0 if [test.txt] could be
    opened and 1 if not; the read and its result have no part in it. *)
Theorem reader_exit_status (stack : nat → char) (w : world) (code : Z) (w' : world) :
  FileRead.main stack w = Ok code w' →
  code = if may_open w "test.txt" ModeR then 0 else 1.
Proof.
  destruct (may_open w "test.txt" ModeR) eqn:Hopen.
  - rewrite (reader_granted _ _ Hopen).
    destruct (c_str _) as [s|]; [|done]. by intros [= <- _].
  - rewrite (reader_refused _ _ Hopen). by intros [= <- _].
Qed.

Lemma reader_exit_status_witness :
  ∃ w1 w2,
    FileRead.main (stack_of NUL) w_empty_file = Ok 0 w1 ∧
    FileRead.main (stack_of NUL) w_unreadable = Ok 1 w2 ∧
    0 = (if may_open w_empty_file "test.txt" ModeR then 0 else 1) ∧
    1 = (if may_open w_unreadable "test.txt" ModeR then 0 else 1).
Proof.
  eexists _, _. split; [vm_compute; reflexivity|]. split; [vm_compute; reflexivity|].
  split.
  - eapply (reader_exit_status (stack_of NUL) w_empty_file 0). vm_compute; reflexivity.
  - eapply (reader_exit_status (stack_of NUL) w_unreadable 1). vm_compute; reflexivity.
Defined.

(** The writer returns in every world, with status 0 if [output.txt] could
    be opened for writing and 1 if not: no run of it is undefined. *)
Theorem writer_exit_status (w : world) :
  ∃ w', FileWrite.main w
        = Ok (if may_open w "output.txt" ModeW then 0 else 1) w'.
Proof.
  destruct (may_open w "output.txt" ModeW) eqn:Hopen.
  - rewrite (writer_granted _ Hopen). by eexists.
  - rewrite (writer_refused _ Hopen). by eexists.
Qed.

(** ** Edges of the read *)

(** A [test.txt] that holds at most 99 bytes, no newline and no zero byte
    (a last line without terminator) is reported whole. *)
Theorem reader_prints_unterminated_line (stack : nat → char) (w : world) (f : inode) :
  files w !! "test.txt" = Some f →
  r_ok f = true →
  data f ≠ [] →
  (length (data f) ≤ 99)%nat →
  LF ∉ data f →
  NUL ∉ data f →
  ∃ w', FileRead.main stack w = Ok 0 w' ∧
        out w' = out w ++ lit "Read: " ++ data f ++ [LF].
Proof.
  intros Hf Hr Hne Hlen HLF HNUL.
  assert (Hopen : may_open w "test.txt" ModeR = true)
    by (by rewrite (may_open_r_Some _ _ _ Hf)).
  pose proof (contents_Some _ _ _ Hf) as Htext.
  eexists. split.
  - apply (reader_reads stack w (data f) Hopen); [by rewrite Htext| |done].
    rewrite Htext, take_line_no_LF; rewrite take_ge by done; done.
  - reflexivity.
Qed.

Lemma reader_prints_unterminated_line_witness :
  ∃ w', FileRead.main (stack_of "A") w_short_line = Ok 0 w' ∧
        out w' = out w_short_line ++ lit "Read: " ++ lit "abc" ++ [LF].
Proof.
  apply (reader_prints_unterminated_line (stack_of "A") w_short_line
           (Inode (lit "abc") true true));
    [reflexivity | reflexivity | discriminate | vm_compute; lia
    | by_computation | by_computation].
Defined.

(** A zero byte in the first line, among the bytes the read takes, cuts the
    report: only what precedes it is printed. *)
Theorem reader_report_stops_at_zero_byte
    (stack : nat → char) (w : world) (f : inode) (pre rest : list char) :
  files w !! "test.txt" = Some f →
  r_ok f = true →
  data f = pre ++ NUL :: rest →
  (length pre < 99)%nat →
  LF ∉ pre →
  NUL ∉ pre →
  ∃ w', FileRead.main stack w = Ok 0 w' ∧
        out w' = out w ++ lit "Read: " ++ pre ++ [LF].
Proof.
  intros Hf Hr Hdata Hlen HLF HNUL.
  assert (Hopen : may_open w "test.txt" ModeR = true)
    by (by rewrite (may_open_r_Some _ _ _ Hf)).
  pose proof (contents_Some _ _ _ Hf) as Htext. rewrite Hdata in Htext.
  rewrite (reader_granted _ _ Hopen), Htext.
  assert (Hne : pre ++ NUL :: rest ≠ []) by (by destruct pre).
  destruct (pre ++ NUL :: rest) as [|c text] eqn:E; [done|].
  cbn [buffer_after_fgets]. rewrite <- E.
  rewrite take_line_app by (done || lia).
  destruct (99 - length pre)%nat as [|k] eqn:Ek; [lia|]. cbn [take_line].
  change (Ascii.eqb NUL LF) with false. cbn iota.
  rewrite <- app_assoc. cbn [app]. rewrite c_str_terminated by done.
  by eexists.
Qed.

Lemma reader_report_stops_at_zero_byte_witness :
  ∃ w', FileRead.main (stack_of "A") w_nul_line = Ok 0 w' ∧
        out w' = out w_nul_line ++ lit "Read: " ++ lit "a" ++ [LF].
Proof.
  apply (reader_report_stops_at_zero_byte (stack_of "A") w_nul_line
           (Inode (lit "a" ++ [NUL] ++ lit "b" ++ [LF]) true true)
           (lit "a") (lit "b" ++ [LF]));
    [reflexivity | reflexivity | reflexivity | vm_compute; lia
    | by_computation | by_computation].
Defined.

(** Once a line was read the report owes nothing to what the stack held
    under the buffer: any two stacks give the same output and status. *)
Theorem reader_report_ignores_stack
    (stack1 stack2 : nat → char) (w : world) (f : inode) :
  files w !! "test.txt" = Some f →
  r_ok f = true →
  data f ≠ [] →
  ∃ w1 w2, FileRead.main stack1 w = Ok 0 w1 ∧
           FileRead.main stack2 w = Ok 0 w2 ∧
           out w1 = out w2.
Proof.
  intros Hf Hr Hne.
  assert (Hopen : may_open w "test.txt" ModeR = true)
    by (by rewrite (may_open_r_Some _ _ _ Hf)).
  pose proof (contents_Some _ _ _ Hf) as Htext.
  rewrite !(reader_granted _ _ Hopen), Htext.
  destruct (data f) as [|c text]; [done|]. cbn [buffer_after_fgets].
  rewrite (c_str_tail_irrelevant _ _
             (drop (S (length (take_line 99 (c :: text))))
                (FileRead.declare_buffer stack2))).
  destruct (c_str_is_Some _ (NUL_in_stored (take_line 99 (c :: text))
              (drop (S (length (take_line 99 (c :: text))))
                 (FileRead.declare_buffer stack2)))) as [s ->].
  by eexists _, _.
Qed.

Lemma reader_report_ignores_stack_witness :
  ∃ w1 w2, FileRead.main (stack_of "A") w_two_lines = Ok 0 w1 ∧
           FileRead.main (stack_of NUL) w_two_lines = Ok 0 w2 ∧
           out w1 = out w2.
Proof.
  apply (reader_report_ignores_stack (stack_of "A") (stack_of NUL) w_two_lines
           (Inode (lit "hi" ++ [LF] ++ lit "more") true true));
    [reflexivity | reflexivity | discriminate].
Defined.

(** With an empty [test.txt] nothing is read and the report is what the
    stack held under the buffer: when the first zero byte there is at
    offset [i < 100], the [i] bytes before it are printed, and the status
    is 0. *)
Theorem reader_empty_file_reports_stack
    (stack : nat → char) (w : world) (f : inode) (i : nat) :
  files w !! "test.txt" = Some f →
  r_ok f = true →
  data f = [] →
  (i < 100)%nat →
  stack i = NUL →
  (∀ j, (j < i)%nat → stack j ≠ NUL) →
  ∃ w', FileRead.main stack w = Ok 0 w' ∧
        out w' = out w ++ lit "Read: " ++ map stack (seq 0 i) ++ [LF].
Proof.
  intros Hf Hr Hdata Hi Hzero Hbefore.
  assert (Hopen : may_open w "test.txt" ModeR = true)
    by (by rewrite (may_open_r_Some _ _ _ Hf)).
  pose proof (contents_Some _ _ _ Hf) as Htext. rewrite Hdata in Htext.
  rewrite (reader_granted _ _ Hopen), Htext. cbn [buffer_after_fgets].
  rewrite (c_str_declare_buffer stack i) by done. by eexists.
Qed.

Lemma reader_empty_file_reports_stack_witness :
  ∃ w', FileRead.main (stack_zero_at 2) w_empty_file = Ok 0 w' ∧
        out w' = out w_empty_file ++ lit "Read: "
                   ++ map (stack_zero_at 2) (seq 0 2) ++ [LF].
Proof.
  apply (reader_empty_file_reports_stack (stack_zero_at 2) w_empty_file
           (Inode [] true true) 2);
    [reflexivity | reflexivity | reflexivity | lia | reflexivity |].
  intros [|[|j]] Hj; [discriminate | discriminate | lia].
Defined.



(** ** Runs one after the other *)

(** What the reader appends to standard output, and its status, are fixed
    by the entry of [test.txt] and the stack: a second world with the same
    entry gets the same. *)
Lemma reader_report_determined stack w wa code w' :
  files wa !! "test.txt" = files w !! "test.txt" →
  FileRead.main stack w = Ok code w' →
  ∃ text wa', out w' = out w ++ text ∧
              FileRead.main stack wa = Ok code wa' ∧
              out wa' = out wa ++ text.
Proof.
  intros Hsame Hrun.
  assert (Hmay : may_open wa "test.txt" ModeR = may_open w "test.txt" ModeR)
    by (unfold may_open; by rewrite Hsame).
  assert (Htext : contents wa "test.txt" = contents w "test.txt")
    by (unfold contents; by rewrite Hsame).
  destruct (may_open w "test.txt" ModeR) eqn:Hopen.
  - rewrite (reader_granted _ _ Hopen) in Hrun.
    rewrite (reader_granted _ _ Hmay), Htext.
    destruct (c_str _) as [s|]; [|done]. injection Hrun as <- <-.
    by eexists _, _.
  - rewrite (reader_refused _ _ Hopen) in Hrun.
    rewrite (reader_refused _ _ Hmay). injection Hrun as <- <-.
    by eexists _, _.
Qed.

Lemma reader_keeps_files stack w code w' :
  FileRead.main stack w = Ok code w' → files w' = files w.
Proof.
  destruct (may_open w "test.txt" ModeR) eqn:Hopen.
  - rewrite (reader_granted _ _ Hopen).
    destruct (c_str _) as [s|]; [|done]. by intros [= _ <-].
  - rewrite (reader_refused _ _ Hopen). by intros [= _ <-].
Qed.

(** When the reader returns and [test.txt] was not an openable empty file,
    another stack gives the same status and the same output. *)
Lemma reader_stack_irrelevant stack1 stack2 w code w' :
  (may_open w "test.txt" ModeR = true → contents w "test.txt" ≠ []) →
  FileRead.main stack1 w = Ok code w' →
  ∃ w'', FileRead.main stack2 w = Ok code w'' ∧ out w'' = out w'.
Proof.
  intros Hne. destruct (may_open w "test.txt" ModeR) eqn:Hopen.
  - specialize (Hne eq_refl). rewrite !(reader_granted _ _ Hopen).
    destruct (contents w "test.txt") as [|c text]; [done|].
    cbn [buffer_after_fgets].
    rewrite (c_str_tail_irrelevant _ _
               (drop (S (length (take_line 99 (c :: text))))
                  (FileRead.declare_buffer stack2))).
    destruct (c_str _) as [s|]; [|done]. intros [= <- <-]. by eexists.
  - rewrite !(reader_refused _ _ Hopen). intros [= <- <-]. by eexists.
Qed.

(** The reader's run depends on the world only through the entry of
    [test.txt]; other files, earlier output, open streams and the
    directory's permission play no part.  In two worlds with the same
    entry the runs are both undefined, or both return, with the same status
    and the same text appended to standard output. *)
Theorem reader_depends_on_test_txt_only (stack : nat → char) (w wa : world) :
  files wa !! "test.txt" = files w !! "test.txt" →
  (FileRead.main stack w = Undefined ∧ FileRead.main stack wa = Undefined) ∨
  (∃ code text w' wa',
     FileRead.main stack w = Ok code w' ∧
     FileRead.main stack wa = Ok code wa' ∧
     out w' = out w ++ text ∧
     out wa' = out wa ++ text).
Proof.
  intros Hsame. destruct (FileRead.main stack w) as [code w'|] eqn:Hrun.
  - right.
    destruct (reader_report_determined stack w wa code w' Hsame Hrun)
      as (text & wa' & Hout & Hrun' & Hout').
    by exists code, text, w', wa'.
  - left. split; [done|].
    apply reader_undefined_iff in Hrun as (Hopen & Hempty & Hstr).
    apply reader_undefined_iff. unfold may_open, contents in *.
    by rewrite Hsame.
Qed.

Lemma reader_depends_on_test_txt_only_witness :
  (FileRead.main (stack_of "A") w_two_lines = Undefined ∧
   FileRead.main (stack_of "A")
     (World (false, false) (<["output.txt"%string := Inode (lit "x") true true]> (files w_two_lines))
        false ∅ (lit "earlier output") []) = Undefined) ∨
  (∃ code text w' wa',
     FileRead.main (stack_of "A") w_two_lines = Ok code w' ∧
     FileRead.main (stack_of "A")
       (World (false, false) (<["output.txt"%string := Inode (lit "x") true true]> (files w_two_lines))
          false ∅ (lit "earlier output") []) = Ok code wa' ∧
     out w' = out w_two_lines ++ text ∧
     out wa' = lit "earlier output" ++ text).
Proof.
  apply (reader_depends_on_test_txt_only (stack_of "A") w_two_lines
           (World (false, false) (<["output.txt"%string := Inode (lit "x") true true]> (files w_two_lines))
              false ∅ (lit "earlier output") [])).
  reflexivity.
Defined.

(** Unless [test.txt] is an openable empty file, running the reader again
    gives the same report and status again, whatever the stacks of the two
    runs hold: the stream is closed at the end of a run and each run reads
    from the start of the file. *)
Theorem reader_twice_same_report
    (stack1 stack2 : nat → char) (w : world) (code : Z) (w1 : world) :
  (may_open w "test.txt" ModeR = true → contents w "test.txt" ≠ []) →
  FileRead.main stack1 w = Ok code w1 →
  ∃ text w2, out w1 = out w ++ text ∧
             FileRead.main stack2 w1 = Ok code w2 ∧
             out w2 = out w1 ++ text.
Proof.
  intros Hne Hrun.
  pose proof (reader_keeps_files _ _ _ _ Hrun) as Hfiles.
  destruct (reader_report_determined stack1 w w1 code w1) as (text & w2 & Hout & Hrun2 & Hout2);
    [by rewrite Hfiles|done|].
  destruct (reader_stack_irrelevant stack1 stack2 w1 code w2) as (w2' & Hrun2' & Hout2');
    [|done|].
  - unfold may_open, contents in *. by rewrite Hfiles.
  - exists text, w2'. split; [done|]. split; [done|]. congruence.
Qed.

Lemma reader_twice_same_report_witness :
  ∃ w1, FileRead.main (stack_of "A") w_two_lines = Ok 0 w1 ∧
  ∃ text w2, out w1 = out w_two_lines ++ text ∧
             FileRead.main (stack_of NUL) w1 = Ok 0 w2 ∧
             out w2 = out w1 ++ text.
Proof.
  eexists. split; [vm_compute; reflexivity|].
  apply (reader_twice_same_report (stack_of "A") (stack_of NUL) w_two_lines 0).
  - intros _. discriminate.
  - vm_compute; reflexivity.
Defined.

(** ** Standard output *)

(** Every returning run of either program makes exactly one [printf] call;
    its text ends in a newline and is appended to what standard output
    held, which is never rewritten. *)
Theorem run_prints_one_line (p : program) (w : world) (code : Z) (w' : world) :
  run p w = Ok code w' →
  ∃ evs s, log w' = log w ++ evs ∧
           printed evs = [s] ∧
           out w' = out w ++ s ∧
           last s = Some LF.
Proof.
  destruct p as [stack|]; cbn [run].
  - destruct (may_open w "test.txt" ModeR) eqn:Hopen.
    + rewrite (reader_granted _ _ Hopen).
      destruct (c_str _) as [s|]; [|done]. intros [= _ <-].
      eexists _, (lit "Read: " ++ s ++ [LF]).
      split; [reflexivity|]. split; [reflexivity|]. split; [reflexivity|].
      by rewrite (app_assoc _ s), last_snoc.
    + rewrite (reader_refused _ _ Hopen). intros [= _ <-].
      eexists _, msg_no_open. by repeat split.
  - destruct (may_open w "output.txt" ModeW) eqn:Hopen.
    + rewrite (writer_granted _ Hopen). intros [= _ <-].
      eexists _, msg_written. by repeat split.
    + rewrite (writer_refused _ Hopen). intros [= _ <-].
      eexists _, msg_no_create. by repeat split.
Qed.

Lemma run_prints_one_line_witness :
  ∃ w', run Writer w_old_output = Ok 0 w' ∧
  ∃ evs s, log w' = log w_old_output ++ evs ∧
           printed evs = [s] ∧
           out w' = out w_old_output ++ s ∧
           last s = Some LF.
Proof.
  eexists. split; [vm_compute; reflexivity|].
  apply (run_prints_one_line Writer w_old_output 0).
  vm_compute; reflexivity.
Defined.

(** A run of the reader before the writer changes nothing in what the
    writer returns or in the files it leaves. *)
Theorem reader_then_writer
    (stack : nat → char) (w : world) (c : Z) (w1 : world) :
  FileRead.main stack w = Ok c w1 →
  ∃ code wa wb, FileWrite.main w = Ok code wa ∧
                FileWrite.main w1 = Ok code wb ∧
                files wb = files wa.
Proof.
  intros Hread. pose proof (reader_keeps_files _ _ _ _ Hread) as Hfiles.
  assert (Hdir : dir_w w1 = dir_w w ∧ new_perm w1 = new_perm w).
  { revert Hread. destruct (may_open w "test.txt" ModeR) eqn:Hopen.
    - rewrite (reader_granted _ _ Hopen).
      destruct (c_str _) as [s|]; [|done]. by intros [= _ <-].
    - rewrite (reader_refused _ _ Hopen). by intros [= _ <-]. }
  destruct Hdir as [Hdir Hperm].
  assert (Hmay : may_open w1 "output.txt" ModeW = may_open w "output.txt" ModeW)
    by (unfold may_open; by rewrite Hfiles, Hdir).
  destruct (may_open w "output.txt" ModeW) eqn:Hopen.
  - rewrite (writer_granted _ Hopen), (writer_granted _ Hmay).
    eexists _, _, _. split; [reflexivity|]. split; [reflexivity|].
    cbn [files]. unfold file_with. by rewrite Hfiles, Hperm.
  - rewrite (writer_refused _ Hopen), (writer_refused _ Hmay).
    eexists _, _, _. split; [reflexivity|]. split; [reflexivity|]. done.
Qed.

Lemma reader_then_writer_witness :
  ∃ w1, FileRead.main (stack_of "A") w_two_lines = Ok 0 w1 ∧
  ∃ code wa wb, FileWrite.main w_two_lines = Ok code wa ∧
                FileWrite.main w1 = Ok code wb ∧
                files wb = files wa.
Proof.
  eexists. split; [vm_compute; reflexivity|].
  apply (reader_then_writer (stack_of "A") w_two_lines 0).
  vm_compute; reflexivity.
Defined.
